(** * The Potential class of gmso (topology/core/potential.py)

    A shallow embedding of [Potential] and of its validators, and the
    properties of its consistency checking.

    Python objects are modelled as follows.
    - A [str] and a [sympy.Symbol] are different objects even when they
      carry the same name: [PStr "a"] and [PSymbol (Sym "a")].
    - A [dict] is an object of the store, reached through its address; two
      references to one address see each other's updates.
    - The symbolic engine (sympy) and the units library (unyt) are the two
      interfaces [SymbolicEngine] and [UnitsLibrary].
    - A method is a computation over the state made of [self], the store of
      dicts and the warnings emitted so far; it ends with a value or with a
      raised exception, and the state it leaves is kept in both cases. *)

From stdpp Require Import base gmap sets list strings.

Set Warnings "-clear-no-such-hyp".

(** ** Python values *)

(** A [sympy.Symbol], identified by its name. *)
Inductive Symbol := Sym (name : string).

Global Instance Symbol_eq_dec : EqDecision Symbol.
Proof. solve_decision. Defined.

Global Instance Symbol_countable : Countable Symbol.
Proof. apply (inj_countable' (λ '(Sym s), s) Sym). by intros []. Defined.

(** [sympy.symbols(name)] for the name of one symbol. *)
Definition symbols (name : string) : Symbol := Sym name.

(** The objects met as keys of a dict and as members of a list or set of
    independent variables: a [str], a [sympy.Symbol], or something else
    (an [int] stands for it). *)
Inductive pyobj :=
| PStr (s : string)
| PSymbol (x : Symbol)
| PInt (n : Z).

Global Instance pyobj_eq_dec : EqDecision pyobj.
Proof. solve_decision. Defined.

Definition pyobj_encode (o : pyobj) : string + Symbol + Z :=
  match o with
  | PStr s => inl (inl s)
  | PSymbol x => inl (inr x)
  | PInt n => inr n
  end.

Definition pyobj_decode (c : string + Symbol + Z) : pyobj :=
  match c with
  | inl (inl s) => PStr s
  | inl (inr x) => PSymbol x
  | inr n => PInt n
  end.

Global Instance pyobj_countable : Countable pyobj.
Proof. apply (inj_countable' pyobj_encode pyobj_decode). by intros []. Defined.

(** [isinstance(o, str)] and [isinstance(o, sympy.symbol.Symbol)]. *)
Definition is_str (o : pyobj) : bool :=
  match o with PStr _ => true | _ => false end.

Definition is_symbol (o : pyobj) : bool :=
  match o with PSymbol _ => true | _ => false end.

Definition as_str (o : pyobj) : option string :=
  match o with PStr s => Some s | _ => None end.

Definition as_symbol (o : pyobj) : option Symbol :=
  match o with PSymbol x => Some x | _ => None end.

(** ** The two libraries the class calls *)

(** sympy: expressions, their free symbols, the parser of strings
    ([None] when [sympy.sympify] raises) and [==] on expressions. *)
Class SymbolicEngine := {
  Expr : Type;
  free_symbols : Expr → gset Symbol;
  sympify : string → option Expr;
  expr_eqb : Expr → Expr → bool;
}.

(** unyt: the values of a parameter dict are arbitrary Python values;
    [is_unyt_array v] is [isinstance(v, u.unyt_array)] and [value_eqb] is
    [==] on them. *)
Class UnitsLibrary := {
  Value : Type;
  is_unyt_array : Value → bool;
  value_eqb : Value → Value → bool;
}.

Section Potential.
Context {sympy : SymbolicEngine} {unyt : UnitsLibrary}.

(** ** Exceptions and warnings *)

(** The [ValueError]s of the module, with what their message formats.
    [SympifyFailed] is sympy's [SympifyError], a subclass of [ValueError]. *)
Inductive value_error :=
| EnterDictionary
| LacksUnyt (val : Value)
| KeyNotStr (key : pyobj)
| MixedVariables
| EnterIndependentVariables
| EnterExpression
| SympifyFailed (s : string)
| NoVariablesFound (expected : gset pyobj)
| Mismatch
| MissingSymbols (missing_syms : gset Symbol).

Inductive exn :=
| ValueError (e : value_error)
| AttributeError
| TypeError.

Inductive warning :=
| UnusedSymbols (unused_symbols : gset Symbol)
| ExtraneousSymbols (extra_syms : gset Symbol).

(** ** Objects and state *)

Definition addr := positive.

(** The value stored in [_independent_variables]: a Python [set], or the
    [list] that the caller passed. *)
Inductive container :=
| PySet (X : gset Symbol)
| PyList (l : list Symbol).

Record Potential := mkPotential {
  _name : string;
  _parameters : addr;
  _independent_variables : container;
  _expression : option Expr;
}.

Record state := mkState {
  self : Potential;
  dicts : gmap addr (gmap pyobj Value);
  warned : list warning;
}.

(** A computation: the final state, and a raised exception or a value. *)
Definition M (A : Type) : Type := state → state * (exn + A).

Global Instance M_ret : MRet M := λ A x st, (st, inr x).

Global Instance M_bind : MBind M := λ A B f m st,
  match m st with
  | (st', inl e) => (st', inl e)
  | (st', inr x) => f x st'
  end.

Definition raise {A} (e : exn) : M A := λ st, (st, inl e).

Definition lift {A} (r : exn + A) : M A := λ st, (st, r).

Definition get_self : M Potential := λ st, (st, inr (self st)).

Definition modify (f : state → state) : M unit := λ st, (f st, inr tt).

(** The state after [warnings.warn(w)]. *)
Definition put_warning (w : warning) (st : state) : state :=
  mkState (self st) (dicts st) (warned st ++ [w]).

Definition warn (w : warning) : M unit := modify (put_warning w).

(** The dict at an address; an address never written holds the empty dict. *)
Definition deref (st : state) (r : addr) : gmap pyobj Value :=
  default ∅ (dicts st !! r).

Definition read_dict (r : addr) : M (gmap pyobj Value) :=
  λ st, (st, inr (deref st r)).

(** The state after [d.update(new)] on the dict [d] at address [r]: the
    entries of [new] are added, and replace those of [d] with the same key. *)
Definition put_update (r : addr) (new : gmap pyobj Value) (st : state) : state :=
  mkState (self st) (<[r := new ∪ deref st r]> (dicts st)) (warned st).

Definition dict_update (r : addr) (new : gmap pyobj Value) : M unit :=
  modify (put_update r new).

(** The state after an attribute assignment [self._x = v]. *)
Definition put_self (p : Potential) (st : state) : state :=
  mkState p (dicts st) (warned st).

Definition put_name (v : string) (st : state) : state :=
  let p := self st in
  put_self (mkPotential v (_parameters p) (_independent_variables p) (_expression p)) st.

Definition put_parameters (v : addr) (st : state) : state :=
  let p := self st in
  put_self (mkPotential (_name p) v (_independent_variables p) (_expression p)) st.

Definition put_independent_variables (v : container) (st : state) : state :=
  let p := self st in
  put_self (mkPotential (_name p) (_parameters p) v (_expression p)) st.

Definition put_expression (v : option Expr) (st : state) : state :=
  let p := self st in
  put_self (mkPotential (_name p) (_parameters p) (_independent_variables p) v) st.

Definition assign_name (v : string) : M unit := modify (put_name v).
Definition assign_parameters (v : addr) : M unit := modify (put_parameters v).
Definition assign_independent_variables (v : container) : M unit :=
  modify (put_independent_variables v).
Definition assign_expression (v : option Expr) : M unit :=
  modify (put_expression v).

(** ** The validators *)

(** The [parameters] argument: a dict object, or any other object. *)
Inductive params_arg :=
| PyDict (r : addr)
| NotADict.

(** The body of the loop of [_validate_parameters] for one item. *)
Definition validate_item (item : pyobj * Value) : exn + unit :=
  let '(key, val) := item in
  if negb (is_unyt_array val) then inl (ValueError (LacksUnyt val))
  else if negb (is_str key) then inl (ValueError (KeyNotStr key))
  else inr tt.

Fixpoint validate_items (items : list (pyobj * Value)) : exn + unit :=
  match items with
  | [] => inr tt
  | item :: items =>
      match validate_item item with
      | inl e => inl e
      | inr _ => validate_items items
      end
  end.

(** Returns the dict it was given: the same object, not a copy. *)
Definition _validate_parameters (parameters : params_arg) : M addr :=
  match parameters with
  | NotADict => raise (ValueError EnterDictionary)
  | PyDict r =>
      d ← read_dict r;
      _ ← lift (validate_items (map_to_list d));
      mret r
  end.

(** The [independent_variables] argument. *)
Inductive indep_arg :=
| IStr (s : string)
| ISymbol (x : Symbol)
| IList (l : list pyobj)
| ISet (X : gset pyobj)
| IOther.

Definition _validate_independent_variables (indep_vars : indep_arg)
  : exn + container :=
  match indep_vars with
  | IStr s => inr (PySet {[ symbols s ]})
  | ISymbol x => inr (PySet {[ x ]})
  | IList l =>
      if forallb is_symbol l then inr (PyList (omap as_symbol l))
      else if forallb is_str l
      then inr (PySet (list_to_set (symbols <$> omap as_str l)))
      else inl (ValueError MixedVariables)
  | ISet X =>
      if forallb is_symbol (elements X) then inr (PySet (set_omap as_symbol X))
      else if forallb is_str (elements X)
      then inr (PySet (list_to_set (symbols <$> omap as_str (elements X))))
      else inl (ValueError MixedVariables)
  | IOther => inl (ValueError EnterIndependentVariables)
  end.

(** The [expression] argument. *)
Inductive expr_arg :=
| ENone
| EExpr (e : Expr)
| EStr (s : string)
| EOther.

Definition _validate_expression (expression : expr_arg) : exn + option Expr :=
  match expression with
  | ENone => inr None
  | EExpr e => inr (Some e)
  | EStr s =>
      match sympify s with
      | Some e => inr (Some e)
      | None => inl (ValueError (SympifyFailed s))
      end
  | EOther => inl (ValueError EnterExpression)
  end.

(** ** The consistency check *)

(** [sympy.symbols(names)] for a set of names: the set of their symbols.
    A member that is not a [str] is not iterable as a name. *)
Definition sympy_symbols (names : gset pyobj) : exn + gset Symbol :=
  if forallb is_str (elements names)
  then inr (set_omap (λ o, symbols <$> as_str o) names)
  else inl TypeError.

(** [expression.free_symbols]; [None] has no such attribute. *)
Definition get_free_symbols (expression : option Expr) : exn + gset Symbol :=
  match expression with
  | Some e => inr (free_symbols e)
  | None => inl AttributeError
  end.

(** [X.union(c)] takes any iterable. *)
Definition set_union (X : gset Symbol) (c : container) : gset Symbol :=
  match c with
  | PySet Y => X ∪ Y
  | PyList l => X ∪ list_to_set l
  end.

(** [X - c] is defined between sets only. *)
Definition set_sub (X : gset Symbol) (c : container) : exn + gset Symbol :=
  match c with
  | PySet Y => inr (X ∖ Y)
  | PyList _ => inl TypeError
  end.

(** [X ^ Y] *)
Definition set_xor (X Y : gset Symbol) : gset Symbol := (X ∖ Y) ∪ (Y ∖ X).

Definition _validate_expression_parameters : M unit :=
  p ← get_self;
  keys ← read_dict (_parameters p);
  parameter_symbols ← lift (sympy_symbols (dom keys));
  let independent_variable_symbols := _independent_variables p in
  let used_symbols := set_union parameter_symbols independent_variable_symbols in
  fs ← lift (get_free_symbols (_expression p));
  let unused_symbols := fs ∖ used_symbols in
  _ ← (if bool_decide (0 < size unused_symbols)
       then warn (UnusedSymbols unused_symbols) else mret tt);
  if bool_decide (used_symbols ≠ fs) then
    symbols ← lift (sympy_symbols (dom keys));
    if bool_decide (symbols ≠ fs) then
      missing_syms ← lift (set_sub (fs ∖ symbols) (_independent_variables p));
      if bool_decide (missing_syms ≠ ∅)
      then raise (ValueError (MissingSymbols missing_syms))
      else warn (ExtraneousSymbols (set_xor symbols fs))
    else mret tt
  else mret tt.

(** ** The class *)

Definition __init__ (name : string) (expression : expr_arg)
  (parameters : params_arg) (independent_variables : indep_arg) : M unit :=
  _ ← assign_name name;
  r ← _validate_parameters parameters;
  _ ← assign_parameters r;
  iv ← lift (_validate_independent_variables independent_variables);
  _ ← assign_independent_variables iv;
  e ← lift (_validate_expression expression);
  _ ← assign_expression e;
  _validate_expression_parameters.

(** The [name] setter. *)
Definition set_name (val : string) : M unit := assign_name val.

(** The [parameters] setter. *)
Definition set_parameters (newparams : params_arg) : M unit :=
  r ← _validate_parameters newparams;
  newparams ← read_dict r;
  p ← get_self;
  _ ← dict_update (_parameters p) newparams;
  _validate_expression_parameters.

(** The [independent_variables] setter. *)
Definition set_independent_variables (indep_vars : indep_arg) : M unit :=
  iv ← lift (_validate_independent_variables indep_vars);
  assign_independent_variables iv.

(** The [expression] setter. *)
Definition set_expression_property (expression : expr_arg) : M unit :=
  e ← lift (_validate_expression expression);
  _ ← assign_expression e;
  _validate_expression_parameters.

(** [a.isdisjoint(b)] for a set of dict keys and a set of symbols, as sets
    of Python objects. *)
Definition isdisjoint (a : gset pyobj) (b : gset Symbol) : bool :=
  bool_decide (a ## (set_map PSymbol b : gset pyobj)).

(** [set_expression], statement by statement; an argument [None] is written
    [ENone], resp. [None].

    [if expression is not None: self._expression = ...] *)
Definition update_expression (expression : expr_arg) : M unit :=
  match expression with
  | ENone => mret tt
  | _ => e ← lift (_validate_expression expression); assign_expression e
  end.

(** [if parameters is None: ... else: ...]; the value is the dict that the
    local variable [parameters] refers to afterwards. *)
Definition update_parameters (expression : expr_arg)
  (parameters : option params_arg) : M addr :=
  match parameters with
  | None => p ← get_self; mret (_parameters p)
  | Some parameters =>
      parameters ← _validate_parameters parameters;
      p ← get_self;
      old ← read_dict (_parameters p);
      new ← read_dict parameters;
      _ ← (if bool_decide (dom old ∩ dom new = ∅) then
             match expression with
             | ENone => raise (ValueError (NoVariablesFound (dom old)))
             | _ => mret tt
             end
           else mret tt);
      _ ← dict_update (_parameters p) new;
      mret parameters
  end.

(** [if independent_variables is not None: ...] *)
Definition update_independent_variables
  (independent_variables : option indep_arg) : M unit :=
  match independent_variables with
  | None => mret tt
  | Some independent_variables =>
      iv ← lift (_validate_independent_variables independent_variables);
      assign_independent_variables iv
  end.

(** [if not set(parameters.keys()).isdisjoint(...): raise ValueError(...)] *)
Definition mismatch_guard (parameters : addr) : M unit :=
  p ← get_self;
  keys ← read_dict parameters;
  fs ← lift (get_free_symbols (_expression p));
  if negb (isdisjoint (dom keys) fs)
  then raise (ValueError Mismatch) else mret tt.

Definition set_expression (expression : expr_arg)
  (parameters : option params_arg) (independent_variables : option indep_arg)
  : M unit :=
  _ ← update_expression expression;
  parameters ← update_parameters expression parameters;
  _ ← update_independent_variables independent_variables;
  _ ← mismatch_guard parameters;
  _validate_expression_parameters.




(** ** Calling the class *)

(** The object that [__init__] receives: no attribute has been set yet. *)
Definition fresh_object : Potential :=
  mkPotential "" 1%positive (PySet ∅) None.

(** [Potential(name, expression, parameters, independent_variables)] *)
Definition new (name : string) (expression : expr_arg)
  (parameters : params_arg) (independent_variables : indep_arg) : M Potential :=
  _ ← modify (put_self fresh_object);
  _ ← __init__ name expression parameters independent_variables;
  get_self.

(** The default values of the arguments of [__init__]. The default of
    [parameters] is one dict object, made when the class is defined. *)
Definition default_name : string := "Potential".
Definition default_parameters_addr : addr := 1%positive.

(** ** Vocabulary of the properties *)

(** The dict that the [parameters] property returns. *)
Definition parameters_of (st : state) : gmap pyobj Value :=
  deref st (_parameters (self st)).

(** Every key of the dict is a [str]. *)
Definition str_keys (d : gmap pyobj Value) : Prop :=
  set_Forall (λ k, is_str k = true) (dom d).

Global Instance str_keys_dec d : Decision (str_keys d).
Proof. unfold str_keys. apply _. Defined.

(** A dict of [str] keys and unit-tagged values. *)
Definition valid_parameters (d : gmap pyobj Value) : Prop :=
  map_Forall (λ k v, is_str k = true ∧ is_unyt_array v = true) d.

Global Instance valid_parameters_dec d : Decision (valid_parameters d).
Proof. unfold valid_parameters. apply _. Defined.

(** The symbols named by the [str] keys of a dict. *)
Definition parameter_symbols (d : gmap pyobj Value) : gset Symbol :=
  set_omap (λ o, symbols <$> as_str o) (dom d).




End Potential.

(** ** A small symbolic engine and units library for worked examples *)

Module Example.

(** Expressions over integers and symbols. *)
Inductive expr :=
| Num (n : Z)
| Var (x : Symbol)
| Add (a b : expr)
| Mul (a b : expr).

Fixpoint expr_free_symbols (e : expr) : gset Symbol :=
  match e with
  | Num _ => ∅
  | Var x => {[ x ]}
  | Add a b | Mul a b => expr_free_symbols a ∪ expr_free_symbols b
  end.

Global Instance expr_eq_dec : EqDecision expr.
Proof. solve_decision. Defined.

(** [a*x + b], [a*x + b + c] and [a + b]. *)
Definition abx : expr :=
  Add (Mul (Var (Sym "a")) (Var (Sym "x"))) (Var (Sym "b")).
Definition abxc : expr := Add abx (Var (Sym "c")).
Definition a_plus_b : expr := Add (Var (Sym "a")) (Var (Sym "b")).

(** The strings the examples parse. *)
Definition parse (s : string) : option expr :=
  if decide (s = "a*x+b") then Some abx
  else if decide (s = "a*x+b+c") then Some abxc
  else if decide (s = "a+b") then Some a_plus_b
  else None.

Definition engine : SymbolicEngine :=
  {| Expr := expr;
     free_symbols := expr_free_symbols;
     sympify := parse;
     expr_eqb := λ a b, bool_decide (a = b) |}.

(** A value with a unit, or a bare number. *)
Inductive value :=
| Quantity (magnitude : Z) (unit : string)
| Bare (magnitude : Z).

Global Instance value_eq_dec : EqDecision value.
Proof. solve_decision. Defined.

Definition units : UnitsLibrary :=
  {| Value := value;
     is_unyt_array := λ v, match v with Quantity _ _ => true | Bare _ => false end;
     value_eqb := λ a b, bool_decide (a = b) |}.

Definition dimensionless (n : Z) : value := Quantity n "dimensionless".

(** The store when the class has just been defined, with two more dicts
    made by the caller: [{'c': 2}] at address 2, [{'a': 4}] at address 3. *)
Definition store0 : gmap addr (gmap pyobj value) :=
  {[ default_parameters_addr :=
       {[ PStr "a" := dimensionless 1; PStr "b" := dimensionless 1 ]};
     2%positive := {[ PStr "c" := dimensionless 2 ]};
     3%positive := {[ PStr "a" := dimensionless 4 ]} ]}.

Definition state0 : @state engine units :=
  @mkState engine units (@fresh_object engine) store0 [].

(** The object that the class makes from the default arguments, and the
    state in which it has just been made. *)
Definition default_potential : @Potential engine :=
  @mkPotential engine default_name default_parameters_addr
    (PySet {[ Sym "x" ]}) (Some abx).

Definition state1 : @state engine units :=
  @mkState engine units default_potential store0 [].


(** The same store with two more dicts made by the caller:
    [{3: 1}] at address 4, with neither a [str] key nor a value with a
    unit, and [{3: 1*dimensionless}] at address 5. *)
Definition store1 : gmap addr (gmap pyobj value) :=
  <[4%positive := {[ PInt 3 := Bare 1 ]}]>
    (<[5%positive := {[ PInt 3 := dimensionless 1 ]}]> store0).

Definition state2 : @state engine units :=
  @mkState engine units default_potential store1 [].

End Example.

(** * Properties *)

Section Properties.
Context {sympy : SymbolicEngine} {unyt : UnitsLibrary}.

Implicit Types (st : state) (d : gmap pyobj Value) (r : addr).
Implicit Types (e : Expr) (X Y I : gset Symbol) (x : Symbol).

(** ** The validators *)

Lemma validate_items_inr items :
  validate_items items = inr tt ↔
  Forall (λ item, is_str item.1 = true ∧ is_unyt_array item.2 = true) items.
Proof.
  induction items as [|[k v] items IH]; simpl.
  - split; [constructor | done].
  - destruct (is_unyt_array v) eqn:Hv; simpl.
    + destruct (is_str k) eqn:Hk; simpl.
      * rewrite IH. split.
        -- intros Hall. by constructor.
        -- by inversion 1.
      * split; [done|].
        intros Hall. inversion Hall as [|? ? [Hk' _] _]. simpl in Hk'. congruence.
    + split; [done|].
      intros Hall. inversion Hall as [|? ? [_ Hv'] _]. simpl in Hv'. congruence.
Qed.

Lemma validate_items_inl items err :
  validate_items items = inl err → ∃ ve, err = ValueError ve.
Proof.
  induction items as [|[k v] items IH]; simpl; [done|].
  destruct (is_unyt_array v); simpl.
  - destruct (is_str k); simpl; [done|]. intros [= <-]. eauto.
  - intros [= <-]. eauto.
Qed.

Lemma validate_items_valid d :
  validate_items (map_to_list d) = inr tt ↔ valid_parameters d.
Proof.
  rewrite validate_items_inr, Forall_forall. unfold valid_parameters. split.
  - intros Hall k v Hkv. apply (Hall (k, v)). by apply elem_of_map_to_list.
  - intros Hval [k v] Hin. apply (Hval k v). by apply elem_of_map_to_list.
Qed.


(** [_validate_parameters] accepts the valid dicts, and returns the address
    it was given. *)
Lemma _validate_parameters_valid st r :
  valid_parameters (deref st r) →
  _validate_parameters (PyDict r) st = (st, inr r).
Proof.
  intros Hval%validate_items_valid. unfold _validate_parameters.
  unfold mbind, M_bind, read_dict, lift. by rewrite Hval.
Qed.

(** It never changes the state, accepts nothing but valid dicts, and raises
    nothing but a [ValueError]. *)
Lemma _validate_parameters_inv parameters st st' res :
  _validate_parameters parameters st = (st', res) →
  st' = st ∧
  match res with
  | inr r => parameters = PyDict r ∧ valid_parameters (deref st r)
  | inl err => ∃ ve, err = ValueError ve
  end.
Proof.
  destruct parameters as [r|]; simpl.
  - unfold mbind, M_bind, read_dict, lift.
    destruct (validate_items _) as [err|[]] eqn:Hitems; intros [= <- <-].
    + split; [done|]. by eapply validate_items_inl.
    + split; [done|]. split; [done|]. by apply validate_items_valid.
  - intros [= <- <-]. eauto.
Qed.




(** ** The consistency check *)

Lemma size_pos_non_empty X : 0 < size X ↔ X ≠ ∅.
Proof.
  split.
  - intros Hpos ->. rewrite size_empty in Hpos. lia.
  - intros Hne. destruct (size X) eqn:Hsize; [|lia].
    apply size_empty_iff in Hsize. destruct Hne. by apply leibniz_equiv.
Qed.



(** A raised check leaves [self] and the store as they were; it raises
    nothing but the missing symbols, or an error of the interpreter. *)
Lemma check_inv st st' res :
  _validate_expression_parameters st = (st', res) →
  self st' = self st ∧ dicts st' = dicts st ∧
  match res with
  | inl (ValueError ve) => ∃ missing_syms, ve = MissingSymbols missing_syms
  | _ => True
  end.
Proof.
  unfold _validate_expression_parameters, mbind, M_bind, get_self, read_dict.
  unfold lift, warn, modify, raise, mret, M_ret. simpl.
  destruct (sympy_symbols _) as [err|P] eqn:HP.
  { unfold sympy_symbols in HP. case_match; simplify_eq. by intros [= <- <-]. }
  destruct (_expression (self st)) as [e|]; simpl; [|by intros [= <- <-]].
  set (F := free_symbols e).
  destruct (_independent_variables (self st)) as [I|l]; simpl;
    repeat (case_bool_decide; simpl); intros [= <- <-]; simpl; eauto.
Qed.

(** ** The calls reduce to the check *)

Ltac unfold_M :=
  unfold assign_name, assign_parameters, assign_independent_variables,
    assign_expression, dict_update, warn;
  unfold mbind, M_bind, mret, M_ret, lift, raise, modify, get_self, read_dict;
  cbv beta iota.

(** The check on what the constructor has assigned decides the call. *)
Lemma new_run name expression independent_variables st r c eo :
  valid_parameters (deref st r) →
  _validate_independent_variables independent_variables = inr c →
  _validate_expression expression = inr eo →
  new name expression (PyDict r) independent_variables st =
    let p := mkPotential name r c eo in
    let '(st', res) := _validate_expression_parameters (put_self p st) in
    (st', match res with inl err => inl err | inr _ => inr (self st') end).
Proof.
  intros Hval Hc Heo. unfold new, __init__. unfold_M.
  rewrite (_validate_parameters_valid _ r) by done. simpl.
  rewrite Hc, Heo. simpl. unfold put_self. simpl.
  by destruct (_validate_expression_parameters _) as [st' [err|[]]].
Qed.

Lemma set_expression_property_run expression st eo :
  _validate_expression expression = inr eo →
  set_expression_property expression st =
    _validate_expression_parameters (put_expression eo st).
Proof.
  intros Heo. unfold set_expression_property. unfold_M. by rewrite Heo.
Qed.

Lemma set_parameters_run st r :
  valid_parameters (deref st r) →
  set_parameters (PyDict r) st =
    _validate_expression_parameters
      (put_update (_parameters (self st)) (deref st r) st).
Proof.
  intros Hval. unfold set_parameters. unfold_M.
  by rewrite (_validate_parameters_valid _ r).
Qed.

(** ** [set_expression] *)

(** A set of [str] keys and a set of symbols have no object in common. *)
Lemma isdisjoint_str_keys d X : str_keys d → isdisjoint (dom d) X = true.
Proof.
  intros Hstr. apply bool_decide_eq_true. intros k Hk Hk'.
  apply elem_of_map in Hk' as (x & -> & _). by apply Hstr in Hk.
Qed.



(** The steps of a computation, one at a time. *)
Lemma bind_inv {A B} (m : M A) (f : A → M B) st st' res :
  (m ≫= f) st = (st', res) →
  (∃ err, m st = (st', inl err) ∧ res = inl err) ∨
  (∃ a st1, m st = (st1, inr a) ∧ f a st1 = (st', res)).
Proof.
  unfold mbind, M_bind. destruct (m st) as [st1 [err|a]].
  - intros [= <- <-]. left. eauto.
  - intros Hf. right. eauto.
Qed.

(** What each statement of [set_expression] leaves and raises. *)
Lemma _validate_expression_inl expression err :
  _validate_expression expression = inl err →
  err = ValueError EnterExpression ∨ ∃ s, err = ValueError (SympifyFailed s).
Proof.
  destruct expression as [|e|s|]; simpl; try done.
  - destruct (sympify s); [done|]. intros [= <-]. eauto.
  - intros [= <-]. eauto.
Qed.

Lemma _validate_independent_variables_inl independent_variables err :
  _validate_independent_variables independent_variables = inl err →
  err = ValueError MixedVariables ∨ err = ValueError EnterIndependentVariables.
Proof.
  destruct independent_variables as [s|x|l|X|]; simpl; try done.
  - repeat case_match; try done. intros [= <-]. eauto.
  - repeat case_match; try done. intros [= <-]. eauto.
  - intros [= <-]. eauto.
Qed.

Lemma update_expression_run expression st :
  update_expression expression st =
    match expression with
    | ENone => (st, inr tt)
    | _ =>
        match _validate_expression expression with
        | inl err => (st, inl err)
        | inr eo => (put_expression eo st, inr tt)
        end
    end.
Proof.
  unfold update_expression. unfold_M.
  destruct expression; try done; by destruct (_validate_expression _).
Qed.

Lemma update_parameters_run expression st r :
  valid_parameters (deref st r) →
  update_parameters expression (Some (PyDict r)) st =
    let merged := (put_update (_parameters (self st)) (deref st r) st, inr r) in
    if bool_decide (dom (parameters_of st) ∩ dom (deref st r) = ∅) then
      match expression with
      | ENone => (st, inl (ValueError (NoVariablesFound (dom (parameters_of st)))))
      | _ => merged
      end
    else merged.
Proof.
  intros Hval. unfold update_parameters. unfold_M.
  rewrite (_validate_parameters_valid _ r) by done.
  fold (parameters_of st). simpl.
  case_bool_decide; [|done]. by destruct expression.
Qed.

Lemma update_parameters_inv expression parameters st st' res :
  update_parameters expression parameters st = (st', res) →
  match res with
  | inl err =>
      st' = st ∧
      ((∃ ve, err = ValueError ve ∧
              (ve = EnterDictionary ∨ (∃ v, ve = LacksUnyt v) ∨
               (∃ k, ve = KeyNotStr k))) ∨
       (expression = ENone ∧
        err = ValueError (NoVariablesFound (dom (parameters_of st)))))
  | inr r =>
      match parameters with
      | None => st' = st ∧ r = _parameters (self st)
      | Some parameters =>
          parameters = PyDict r ∧ valid_parameters (deref st r) ∧
          st' = put_update (_parameters (self st)) (deref st r) st
      end
  end.
Proof.
  destruct parameters as [[r|]|].
  - destruct (decide (valid_parameters (deref st r))) as [Hval|Hval].
    + rewrite update_parameters_run by done. simpl.
      case_bool_decide; [destruct expression|]; intros [= <- <-]; eauto.
    + unfold update_parameters. unfold_M. unfold _validate_parameters.
      unfold_M. rewrite <-validate_items_valid in Hval.
      destruct (validate_items _) as [err|[]] eqn:Hitems; [|done].
      intros [= <- <-]. split; [done|]. left.
      clear Hval. induction (map_to_list (deref st r)) as [|[k v] items IH];
        simpl in Hitems; [done|].
      destruct (is_unyt_array v); simpl in Hitems; [|simplify_eq; eauto 6].
      destruct (is_str k); simpl in Hitems; [auto|simplify_eq; eauto 6].
  - unfold update_parameters. unfold_M. simpl. intros [= <- <-]. eauto 6.
  - unfold update_parameters. unfold_M. by intros [= <- <-].
Qed.

Lemma update_independent_variables_run independent_variables st :
  update_independent_variables independent_variables st =
    match independent_variables with
    | None => (st, inr tt)
    | Some independent_variables =>
        match _validate_independent_variables independent_variables with
        | inl err => (st, inl err)
        | inr c => (put_independent_variables c st, inr tt)
        end
    end.
Proof.
  unfold update_independent_variables. unfold_M.
  destruct independent_variables; [|done].
  by destruct (_validate_independent_variables _).
Qed.

(** The guard finds the [str] keys of a dict disjoint from any symbols. *)
Lemma mismatch_guard_run st r :
  str_keys (deref st r) →
  mismatch_guard r st =
    (st, match _expression (self st) with
         | Some _ => inr tt
         | None => inl AttributeError
         end).
Proof.
  intros Hstr. unfold mismatch_guard. unfold_M.
  destruct (_expression (self st)); simpl; [|done].
  by rewrite isdisjoint_str_keys.
Qed.

Lemma update_independent_variables_inv independent_variables st st' res :
  update_independent_variables independent_variables st = (st', res) →
  dicts st' = dicts st ∧
  _name (self st') = _name (self st) ∧
  _parameters (self st') = _parameters (self st) ∧
  _expression (self st') = _expression (self st) ∧
  match res with
  | inl err =>
      err = ValueError MixedVariables ∨ err = ValueError EnterIndependentVariables
  | inr _ => True
  end.
Proof.
  rewrite update_independent_variables_run.
  destruct independent_variables as [arg|]; [|by intros [= <- <-]].
  destruct (_validate_independent_variables arg) as [err|c] eqn:Harg;
    intros [= <- <-]; [|done].
  repeat split. by eapply _validate_independent_variables_inl.
Qed.



Lemma mismatch_guard_inv r st st' res :
  mismatch_guard r st = (st', res) →
  st' = st ∧
  match res with
  | inl err => err = AttributeError ∨ err = ValueError Mismatch
  | inr _ => True
  end.
Proof.
  unfold mismatch_guard. unfold_M.
  destruct (_expression (self st)); simpl; [|intros [= <- <-]; eauto].
  case_match; simpl; intros [= <- <-]; eauto.
Qed.

(** The statements after the update of the parameters leave the store, the
    stored address and the expression as they are. *)
Lemma set_expression_tail_inv independent_variables r st st' res :
  (update_independent_variables independent_variables ≫= λ _,
   mismatch_guard r ≫= λ _, _validate_expression_parameters) st = (st', res) →
  dicts st' = dicts st ∧
  _name (self st') = _name (self st) ∧
  _parameters (self st') = _parameters (self st) ∧
  _expression (self st') = _expression (self st) ∧
  ∀ expected, res ≠ inl (ValueError (NoVariablesFound expected)).
Proof.
  intros Hrun.
  apply bind_inv in Hrun as [(err & H3 & ?)|([] & st3 & H3 & Hrun)].
  { apply update_independent_variables_inv in H3
      as (? & ? & ? & ? & [?|?]); simplify_eq; done. }
  apply update_independent_variables_inv in H3 as (Hd & Hn & Hp & He & _).
  apply bind_inv in Hrun as [(err & H4 & ?)|([] & st4 & H4 & Hrun)].
  { apply mismatch_guard_inv in H4 as [-> [?|?]]; simplify_eq; done. }
  apply mismatch_guard_inv in H4 as [-> _].
  apply check_inv in Hrun as (Hs & Hd' & Hres).
  rewrite Hs, Hd'. repeat split; try done.
  intros expected ->. by destruct Hres.
Qed.

(** ** The guard of [set_expression] *)


(** ** The overlap requirement of [set_expression] *)

(** C3. [set_expression] is given a valid dict that shares no key with the
    stored parameters. It raises the [ValueError] that lists the stored
    parameter names exactly when no expression is given, and then it leaves
    the state as it was. When an expression is given and is one that
    [_validate_expression] accepts, the dict is merged into the stored
    parameters, whatever the call raises afterwards. *)
Theorem overlap_requirement st expression r independent_variables :
  valid_parameters (deref st r) →
  dom (parameters_of st) ∩ dom (deref st r) = ∅ →
  let out :=
    set_expression expression (Some (PyDict r)) independent_variables st in
  ((∃ expected, out.2 = inl (ValueError (NoVariablesFound expected)))
   ↔ expression = ENone) ∧
  (expression = ENone →
   out = (st, inl (ValueError (NoVariablesFound (dom (parameters_of st)))))) ∧
  (∀ eo, expression ≠ ENone → _validate_expression expression = inr eo →
     _parameters (self out.1) = _parameters (self st) ∧
     parameters_of out.1 = deref st r ∪ parameters_of st).
Proof.
  intros Hval Hdisj out.
  assert (expression = ENone →
    out = (st, inl (ValueError (NoVariablesFound (dom (parameters_of st))))))
    as Hnone.
  { intros ->. unfold out, set_expression.
    unfold mbind at 1, M_bind at 1. rewrite update_expression_run.
    unfold mbind at 1, M_bind at 1. rewrite update_parameters_run by done.
    simpl. by rewrite bool_decide_eq_true_2. }
  assert (expression ≠ ENone →
    (∀ expected, out.2 ≠ inl (ValueError (NoVariablesFound expected))) ∧
    ∀ eo, _validate_expression expression = inr eo →
      _parameters (self out.1) = _parameters (self st) ∧
      parameters_of out.1 = deref st r ∪ parameters_of st) as Hsome.
  { intros Hne. destruct out as [st' res] eqn:Hrun.
    unfold out, set_expression in Hrun. simpl.
    apply bind_inv in Hrun as [(err & H1 & ->)|([] & st1 & H1 & Hrun)].
    { rewrite update_expression_run in H1.
      assert (_validate_expression expression = inl err) as Hv.
      { destruct expression; try done;
          by destruct (_validate_expression _); simplify_eq. }
      split; [|by intros eo; rewrite Hv].
      intros expected.
      apply _validate_expression_inl in Hv as [->|[s ->]]; done. }
    assert (∃ eo, _validate_expression expression = inr eo ∧
                  st1 = put_expression eo st) as (eo & Hv & ->).
    { rewrite update_expression_run in H1.
      destruct expression; try done;
        destruct (_validate_expression _); simplify_eq; eauto. }
    apply bind_inv in Hrun as [(err & H2 & ->)|(r' & st2 & H2 & Hrun)].
    { rewrite update_parameters_run in H2 by done. simpl in H2.
      case_bool_decide; by destruct expression. }
    assert (r' = r ∧
            st2 = put_update (_parameters (self st)) (deref st r)
                    (put_expression eo st)) as [-> ->].
    { rewrite update_parameters_run in H2 by done. simpl in H2.
      case_bool_decide; destruct expression; by simplify_eq. }
    apply set_expression_tail_inv in Hrun as (Hd & _ & Hp & _ & Hres).
    split; [done|]. intros _ _. split; [done|].
    unfold parameters_of, deref. rewrite Hp, Hd. simpl.
    by rewrite lookup_insert_eq. }
  split; [|split].
  - split.
    + intros [expected Hres]. destruct expression; try done;
        by destruct Hsome as [Hsome _]; [|destruct (Hsome expected)].
    + intros Heq. rewrite (Hnone Heq). eauto.
  - done.
  - intros eo Hne Hv. destruct (Hsome Hne) as [_ Hmerged]. by apply (Hmerged eo).
Qed.

(** ** Symbols that nothing supplies *)


(** ** Symbols that the expression does not use *)


(** ** The [parameters] setter *)

(** C5. The [parameters] setter, given a valid dict, leaves as stored
    parameters the union of that dict with the ones stored before: the new
    items are added, they replace the old items of the same key, every
    other old item is kept, and no key is removed. This holds whether or
    not the check raises afterwards. *)
Theorem parameters_setter_merges st r :
  valid_parameters (deref st r) →
  let out := set_parameters (PyDict r) st in
  _parameters (self out.1) = _parameters (self st) ∧
  parameters_of out.1 = deref st r ∪ parameters_of st ∧
  (∀ k, parameters_of out.1 !! k =
        match deref st r !! k with
        | Some v => Some v
        | None => parameters_of st !! k
        end) ∧
  dom (parameters_of st) ⊆ dom (parameters_of out.1).
Proof.
  intros Hval out. unfold out. rewrite set_parameters_run by done.
  destruct (_validate_expression_parameters _) as [st' res] eqn:Hrun.
  apply check_inv in Hrun as (Hself & Hdicts & _). simpl.
  assert (parameters_of st' = deref st r ∪ parameters_of st) as Hmerged.
  { unfold parameters_of at 1, deref at 1. rewrite Hself, Hdicts. simpl.
    by rewrite lookup_insert_eq. }
  rewrite Hmerged. split; [by rewrite Hself|]. split; [done|]. split.
  - intros k. rewrite lookup_union.
    by destruct (deref st r !! k), (parameters_of st !! k).
  - rewrite dom_union_L. set_solver.
Qed.

(** ** The independent variables *)



(** ** Equality *)



(** ** Mutation before validation *)

(** The statements of [set_expression] after the first one do not assign
    the expression. *)
Lemma set_expression_rest_expression expression parameters
    independent_variables st st' res :
  (update_parameters expression parameters ≫= λ r,
   update_independent_variables independent_variables ≫= λ _,
   mismatch_guard r ≫= λ _, _validate_expression_parameters) st = (st', res) →
  _expression (self st') = _expression (self st).
Proof.
  intros Hrun.
  apply bind_inv in Hrun as [(err & H2 & ?)|(r & st2 & H2 & Hrun)].
  { by apply update_parameters_inv in H2 as [-> _]. }
  apply set_expression_tail_inv in Hrun as (_ & _ & _ & -> & _).
  apply update_parameters_inv in H2.
  destruct parameters as [arg|].
  - by destruct H2 as (_ & _ & ->).
  - by destruct H2 as [-> _].
Qed.

(** C8. When the [expression] setter is given an expression that
    [_validate_expression] accepts and the check then raises a
    [ValueError], the call raises it and leaves the new expression stored.
    [set_expression] called with this expression alone does the same, and
    whatever its other arguments are, and whatever it raises, it leaves the
    new expression stored. *)
Theorem mutation_not_transactional st expression e ve :
  _validate_expression expression = inr (Some e) →
  str_keys (parameters_of st) →
  (_validate_expression_parameters (put_expression (Some e) st)).2
  = inl (ValueError ve) →
  let out := set_expression_property expression st in
  out.2 = inl (ValueError ve) ∧
  _expression (self out.1) = Some e ∧
  set_expression expression None None st = out ∧
  ∀ parameters independent_variables,
    _expression
      (self (set_expression expression parameters independent_variables st).1)
    = Some e.
Proof.
  intros Hv Hstr Hraise out.
  assert (expression ≠ ENone) as Hne by (by intros ->).
  assert (update_expression expression st
          = (put_expression (Some e) st, inr tt)) as Hupd.
  { rewrite update_expression_run, Hv. by destruct expression. }
  unfold out. rewrite (set_expression_property_run _ _ (Some e)) by done.
  split; [done|]. split; [|split].
  - destruct (_validate_expression_parameters _) as [st' res] eqn:Hrun.
    apply check_inv in Hrun as (Hself & _). simpl. by rewrite Hself.
  - unfold set_expression.
    unfold mbind at 1, M_bind at 1. rewrite Hupd.
    unfold update_parameters, update_independent_variables. unfold_M.
    rewrite (mismatch_guard_run (put_expression (Some e) st)); [done|].
    apply Hstr.
  - intros parameters independent_variables.
    destruct (set_expression _ _ _ st) as [st' res] eqn:Hrun.
    unfold set_expression in Hrun.
    apply bind_inv in Hrun as [(err & H1 & ?)|([] & st1 & H1 & Hrun)];
      rewrite Hupd in H1; simplify_eq.
    apply set_expression_rest_expression in Hrun. simpl. by rewrite Hrun.
Qed.

(** ** An expression that is [None] *)



(** ** The default parameters *)




(** * Further properties *)

(** ** The validators *)

(** The item that makes [_validate_parameters] raise, and what it raises:
    the value is looked at before the key. *)
Lemma validate_items_inl_item items err :
  validate_items items = inl err →
  ∃ k v, (k, v) ∈ items ∧
    ((is_unyt_array v = false ∧ err = ValueError (LacksUnyt v)) ∨
     (is_unyt_array v = true ∧ is_str k = false ∧
      err = ValueError (KeyNotStr k))).
Proof.
  induction items as [|[k v] items IH]; simpl; [done|].
  destruct (is_unyt_array v) eqn:Hv; simpl.
  - destruct (is_str k) eqn:Hk; simpl.
    + intros (k' & v' & Hin & Herr)%IH. exists k', v'. split; [|done].
      by apply list_elem_of_further.
    + intros [= <-]. exists k, v. split; [apply list_elem_of_here|]. eauto.
  - intros [= <-]. exists k, v. split; [apply list_elem_of_here|]. eauto.
Qed.

(** [_validate_parameters] never changes the state. It refuses what is not
    a dict, returns the dict it is given when every key is a [str] and
    every value has a unit, and otherwise raises for an item of the dict:
    for its value when that has no unit, and for its key only when the
    value has one. *)
Theorem _validate_parameters_outcome parameters st :
  ∃ res,
    _validate_parameters parameters st = (st, res) ∧
    match parameters with
    | NotADict => res = inl (ValueError EnterDictionary)
    | PyDict r =>
        (valid_parameters (deref st r) → res = inr r) ∧
        (¬ valid_parameters (deref st r) →
         ∃ k v, deref st r !! k = Some v ∧
           ((is_unyt_array v = false ∧ res = inl (ValueError (LacksUnyt v))) ∨
            (is_unyt_array v = true ∧ is_str k = false ∧
             res = inl (ValueError (KeyNotStr k)))))
    end.
Proof.
  destruct parameters as [r|]; [|by eexists].
  unfold _validate_parameters. unfold_M.
  destruct (validate_items (map_to_list (deref st r))) as [err|[]] eqn:Hitems.
  - eexists. split; [done|]. split.
    + intros Hval%validate_items_valid. congruence.
    + intros _. apply validate_items_inl_item in Hitems
        as (k & v & Hin%elem_of_map_to_list & Herr).
      exists k, v. split; [done|].
      destruct Herr as [[? ->]|(? & ? & ->)]; eauto.
  - eexists. split; [done|]. split; [done|].
    intros Hnot. destruct Hnot. by apply validate_items_valid.
Qed.



(** ** The consistency check, further *)









(** The check changes neither the object nor the store, and it warns at
    most once. It warns of unused symbols only as it fails, and then the
    [ValueError] names the symbols of the warning; it warns of extraneous
    symbols only as it returns normally. *)
Theorem check_warns_at_most_once st :
  let out := _validate_expression_parameters st in
  self out.1 = self st ∧
  dicts out.1 = dicts st ∧
  (warned out.1 = warned st ∨
   (∃ X, warned out.1 = warned st ++ [UnusedSymbols X] ∧ X ≠ ∅ ∧
         (out.2 = inl (ValueError (MissingSymbols X)) ∨ out.2 = inl TypeError)) ∨
   (∃ X, warned out.1 = warned st ++ [ExtraneousSymbols X] ∧ out.2 = inr tt)).
Proof.
  intros out. unfold out.
  unfold _validate_expression_parameters. unfold_M.
  destruct (sympy_symbols _) as [err|P] eqn:HP; [by auto|].
  destruct (_expression (self st)) as [e|]; simpl; [|by auto].
  set (F := free_symbols e).
  destruct (_independent_variables (self st)) as [I|l]; simpl.
  - case_bool_decide as Hpos; simpl.
    + apply size_pos_non_empty in Hpos.
      assert (F ∖ P ∖ I = F ∖ (P ∪ I)) as Hsame by set_solver.
      rewrite bool_decide_eq_true_2; last first.
      { intros Heq. apply Hpos. rewrite <-Heq. set_solver. }
      rewrite bool_decide_eq_true_2; last first.
      { intros Heq. apply Hpos. rewrite <-Heq. set_solver. }
      rewrite Hsame. rewrite bool_decide_eq_true_2 by done. simpl.
      split; [done|]. split; [done|]. right. left. eauto.
    + repeat (case_bool_decide; simpl); eauto 8.
  - case_bool_decide as Hpos; simpl.
    + apply size_pos_non_empty in Hpos.
      rewrite bool_decide_eq_true_2; last first.
      { intros Heq. apply Hpos. rewrite <-Heq. set_solver. }
      rewrite bool_decide_eq_true_2; last first.
      { intros Heq. apply Hpos. rewrite <-Heq. set_solver. }
      simpl. split; [done|]. split; [done|]. right. left. eauto.
    + repeat (case_bool_decide; simpl); eauto 8.
Qed.


(** ** The setters, further *)

Lemma valid_parameters_union d1 d2 :
  valid_parameters d1 → valid_parameters d2 → valid_parameters (d1 ∪ d2).
Proof.
  intros H1 H2 k v [Hkv|[_ Hkv]]%lookup_union_Some_raw.
  - by apply (H1 k v).
  - by apply (H2 k v).
Qed.

(** What [_validate_parameters] returns depends on the store only. *)
Lemma _validate_parameters_store parameters st st' :
  dicts st' = dicts st →
  (_validate_parameters parameters st').2 = (_validate_parameters parameters st).2.
Proof.
  intros Hdicts. destruct parameters as [r|]; [|done].
  unfold _validate_parameters. unfold_M.
  assert (deref st' r = deref st r) as -> by (unfold deref; by rewrite Hdicts).
  by destruct (validate_items _).
Qed.


(** The state that the [parameters] setter leaves for a valid dict. *)
Lemma set_parameters_frame st r :
  valid_parameters (deref st r) →
  self (set_parameters (PyDict r) st).1 = self st ∧
  dicts (set_parameters (PyDict r) st).1
  = <[_parameters (self st) := deref st r ∪ parameters_of st]> (dicts st).
Proof.
  intros Hval. rewrite set_parameters_run by done.
  destruct (_validate_expression_parameters _) as [st' res] eqn:Hrun.
  apply check_inv in Hrun as (Hself & Hdicts & _). simpl.
  by rewrite Hself, Hdicts.
Qed.

(** Giving the same dict twice to the [parameters] setter leaves the
    parameters that giving it once leaves, and giving it the stored dict
    itself leaves the parameters as they are. *)
Theorem parameters_setter_idempotent st r :
  valid_parameters (deref st r) →
  let st1 := (set_parameters (PyDict r) st).1 in
  parameters_of (set_parameters (PyDict r) st1).1 = parameters_of st1 ∧
  (r = _parameters (self st) → parameters_of st1 = parameters_of st).
Proof.
  intros Hval st1.
  destruct (set_parameters_frame st r Hval) as [Hself1 Hdicts1].
  fold st1 in Hself1, Hdicts1.
  assert (parameters_of st1 = deref st r ∪ parameters_of st) as Hpar1.
  { unfold parameters_of at 1, deref at 1.
    by rewrite Hself1, Hdicts1, lookup_insert_eq. }
  assert (deref st1 r = deref st r) as Hr1.
  { unfold deref at 1. rewrite Hdicts1.
    destruct (decide (_parameters (self st) = r)) as [<-|Hne].
    - rewrite lookup_insert_eq. simpl. fold (parameters_of st).
      apply map_eq. intros k. rewrite lookup_union.
      by destruct (parameters_of st !! k).
    - by rewrite lookup_insert_ne. }
  split.
  - destruct (set_parameters_frame st1 r) as [Hself2 Hdicts2];
      [by rewrite Hr1|].
    unfold parameters_of at 1, deref at 1.
    rewrite Hself2, Hdicts2, lookup_insert_eq. simpl.
    rewrite Hr1, Hpar1. apply map_eq. intros k. rewrite !lookup_union.
    by destruct (deref st r !! k), (parameters_of st !! k).
  - intros ->. rewrite Hpar1. fold (parameters_of st).
    apply map_eq. intros k. rewrite lookup_union.
    by destruct (parameters_of st !! k).
Qed.

(** ** [set_expression], further *)

Lemma update_expression_frame expression st st' res :
  update_expression expression st = (st', res) →
  dicts st' = dicts st ∧ _parameters (self st') = _parameters (self st).
Proof.
  rewrite update_expression_run.
  destruct expression; try (by intros [= <- <-]);
    by destruct (_validate_expression _); intros [= <- <-].
Qed.

(** [set_expression] never stores another dict in the object, and the only
    change it makes to the store is the merge of a valid [parameters]
    argument into the stored dict. *)
Lemma set_expression_frame expression parameters independent_variables
    st st' res :
  set_expression expression parameters independent_variables st = (st', res) →
  _parameters (self st') = _parameters (self st) ∧
  (dicts st' = dicts st ∨
   ∃ r, parameters = Some (PyDict r) ∧ valid_parameters (deref st r) ∧
        dicts st'
        = <[_parameters (self st) := deref st r ∪ parameters_of st]> (dicts st)).
Proof.
  unfold set_expression. intros Hrun.
  apply bind_inv in Hrun as [(err & H1 & ?)|([] & st1 & H1 & Hrun)].
  { apply update_expression_frame in H1 as [? ?]. auto. }
  apply update_expression_frame in H1 as [Hd1 Hp1].
  assert (∀ r', deref st1 r' = deref st r') as Hderef.
  { intros r'. unfold deref. by rewrite Hd1. }
  apply bind_inv in Hrun as [(err & H2 & ?)|(r & st2 & H2 & Hrun)].
  { apply update_parameters_inv in H2 as [-> _]. auto. }
  apply update_parameters_inv in H2.
  apply set_expression_tail_inv in Hrun as (Hd & _ & Hp & _).
  rewrite Hp, Hd. destruct parameters as [arg|].
  - destruct H2 as (-> & Hval & ->). simpl. split; [done|]. right.
    exists r. split; [done|]. rewrite Hderef in Hval. split; [done|].
    by rewrite Hp1, Hd1, !Hderef.
  - destruct H2 as [-> _]. auto.
Qed.

(** The stored dict is the same object for the life of the object, and no
    setter puts into it a key that is not a [str] or a value without a
    unit: parameters that are valid stay valid, whatever the setter is
    given and whatever it raises. *)
Theorem stored_parameters_stay_valid st :
  valid_parameters (parameters_of st) →
  (∀ newparams,
     let out := set_parameters newparams st in
     _parameters (self out.1) = _parameters (self st) ∧
     valid_parameters (parameters_of out.1)) ∧
  (∀ expression parameters independent_variables,
     let out :=
       set_expression expression parameters independent_variables st in
     _parameters (self out.1) = _parameters (self st) ∧
     valid_parameters (parameters_of out.1)) ∧
  (∀ expression,
     let out := set_expression_property expression st in
     _parameters (self out.1) = _parameters (self st) ∧
     valid_parameters (parameters_of out.1)) ∧
  (∀ indep_vars,
     let out := set_independent_variables indep_vars st in
     _parameters (self out.1) = _parameters (self st) ∧
     valid_parameters (parameters_of out.1)) ∧
  (∀ val,
     let out := set_name val st in
     _parameters (self out.1) = _parameters (self st) ∧
     valid_parameters (parameters_of out.1)).
Proof.
  intros Hval. split; [|split; [|split; [|split]]].
  - intros [r|] out; [|done].
    destruct (decide (valid_parameters (deref st r))) as [Hr|Hr].
    + destruct (set_parameters_frame st r Hr) as [Hself Hdicts].
      fold out in Hself, Hdicts. rewrite Hself. split; [done|].
      unfold parameters_of, deref. rewrite Hself, Hdicts, lookup_insert_eq.
      by apply valid_parameters_union.
    + assert (out.1 = st) as ->; [|done].
      unfold out, set_parameters.
      unfold mbind at 1, M_bind at 1.
      destruct (_validate_parameters (PyDict r) st) as [st1 [err|r']] eqn:Hv;
        apply _validate_parameters_inv in Hv as [-> Hv]; [done|].
      destruct Hv as [[= <-] ?]. done.
  - intros expression parameters independent_variables out.
    destruct out as [st' res] eqn:Hrun. unfold out in Hrun.
    apply set_expression_frame in Hrun as [Hp [Hd|(r & _ & Hr & Hd)]]; simpl;
      (split; [done|]); unfold parameters_of, deref; rewrite Hp, Hd.
    + done.
    + rewrite lookup_insert_eq. by apply valid_parameters_union.
  - intros expression out. unfold out, set_expression_property. unfold_M.
    destruct (_validate_expression expression) as [err|eo]; [done|].
    destruct (_validate_expression_parameters _) as [st' res] eqn:Hrun.
    apply check_inv in Hrun as (Hself & Hdicts & _). simpl.
    unfold parameters_of, deref. by rewrite Hself, Hdicts.
  - intros indep_vars out. unfold out, set_independent_variables. unfold_M.
    by destruct (_validate_independent_variables indep_vars).
  - done.
Qed.

(** [set_expression] given a valid dict that shares a key with the stored
    parameters merges it, whether or not an expression is given, and whatever
    it raises afterwards; it does not raise the error of the overlap
    requirement. *)
Theorem overlapping_parameters_merged st expression r independent_variables :
  valid_parameters (deref st r) →
  dom (parameters_of st) ∩ dom (deref st r) ≠ ∅ →
  (expression = ENone ∨ ∃ eo, _validate_expression expression = inr eo) →
  let out :=
    set_expression expression (Some (PyDict r)) independent_variables st in
  (∀ expected, out.2 ≠ inl (ValueError (NoVariablesFound expected))) ∧
  parameters_of out.1 = deref st r ∪ parameters_of st.
Proof.
  intros Hval Hover Hexpr out.
  destruct out as [st' res] eqn:Hrun. unfold out, set_expression in Hrun.
  simpl.
  assert (∃ st1, update_expression expression st = (st1, inr tt) ∧
                 dicts st1 = dicts st ∧
                 _parameters (self st1) = _parameters (self st))
    as (st1 & Hupd & Hd1 & Hp1).
  { rewrite update_expression_run.
    destruct Hexpr as [->|[eo Hv]]; [by eauto|].
    rewrite Hv. destruct expression; by eauto. }
  unfold mbind at 1, M_bind at 1 in Hrun. rewrite Hupd in Hrun.
  assert (deref st1 r = deref st r) as Hr1.
  { unfold deref. by rewrite Hd1. }
  assert (parameters_of st1 = parameters_of st) as Hpar1.
  { unfold parameters_of, deref. by rewrite Hp1, Hd1. }
  unfold mbind at 1, M_bind at 1 in Hrun.
  rewrite update_parameters_run in Hrun by (by rewrite Hr1).
  simpl in Hrun. rewrite Hpar1, Hr1 in Hrun.
  rewrite (bool_decide_eq_false_2 _ Hover) in Hrun.
  apply set_expression_tail_inv in Hrun as (Hd & _ & Hp & _ & Hres).
  split; [done|].
  unfold parameters_of at 1, deref at 1. rewrite Hp, Hd. simpl.
  rewrite lookup_insert_eq. fold (parameters_of st1). by rewrite Hpar1.
Qed.


(** [set_expression] applies its arguments in turn and keeps what it has
    applied: when the independent variables are refused, the expression and
    the parameters given with them are already stored; when the parameters
    are refused, the expression is, and the store is as it was. *)
Theorem set_expression_keeps_what_it_applied st expression e :
  _validate_expression expression = inr (Some e) →
  (∀ r independent_variables err,
     valid_parameters (deref st r) →
     _validate_independent_variables independent_variables = inl err →
     set_expression expression (Some (PyDict r)) (Some independent_variables) st
     = (put_update (_parameters (self st)) (deref st r)
          (put_expression (Some e) st), inl err)) ∧
  (∀ parameters independent_variables err,
     (_validate_parameters parameters st).2 = inl err →
     set_expression expression (Some parameters) independent_variables st
     = (put_expression (Some e) st, inl err)).
Proof.
  intros Hv.
  assert (expression ≠ ENone) as Hne by (by intros ->).
  assert (update_expression expression st
          = (put_expression (Some e) st, inr tt)) as Hupd.
  { rewrite update_expression_run, Hv. by destruct expression. }
  split.
  - intros r independent_variables err Hval Herr. unfold set_expression.
    unfold mbind at 1, M_bind at 1. rewrite Hupd.
    unfold mbind at 1, M_bind at 1.
    rewrite update_parameters_run by done. simpl.
    unfold update_independent_variables. unfold_M. rewrite Herr.
    case_bool_decide; by destruct expression.
  - intros parameters independent_variables err Herr. unfold set_expression.
    unfold mbind at 1, M_bind at 1. rewrite Hupd.
    unfold mbind at 1, M_bind at 1.
    unfold update_parameters. unfold mbind at 1, M_bind at 1.
    pose proof (_validate_parameters_store parameters st
                  (put_expression (Some e) st) eq_refl) as Hsame.
    destruct (_validate_parameters parameters (put_expression (Some e) st))
      as [st1 res] eqn:Hrun.
    apply _validate_parameters_inv in Hrun as Hinv. destruct Hinv as [-> _].
    simpl in Hsame. rewrite Herr in Hsame. by subst res.
Qed.


(** ** The constructor, further *)

(** The call of the class, by what its validators return. *)
Lemma new_outcome st name expression parameters independent_variables :
  let out := new name expression parameters independent_variables st in
  match (_validate_parameters parameters st).2 with
  | inl err => out.2 = inl err ∧ dicts out.1 = dicts st ∧ warned out.1 = warned st
  | inr r =>
      parameters = PyDict r ∧ valid_parameters (deref st r) ∧
      match _validate_independent_variables independent_variables with
      | inl err =>
          out.2 = inl err ∧ dicts out.1 = dicts st ∧ warned out.1 = warned st
      | inr c =>
          match _validate_expression expression with
          | inl err =>
              out.2 = inl err ∧ dicts out.1 = dicts st ∧
              warned out.1 = warned st
          | inr eo =>
              let p := mkPotential name r c eo in
              dicts out.1 = dicts st ∧
              (∀ p', out.2 = inr p' → p' = p ∧ self out.1 = p)
          end
      end
  end.
Proof.
  intros out.
  destruct (_validate_parameters parameters st) as [st0 [err|r]] eqn:Hpar;
    apply _validate_parameters_inv in Hpar as Hinv; destruct Hinv as [-> Hinv];
    simpl.
  - unfold out, new, __init__. unfold_M.
    pose proof (_validate_parameters_store parameters st
                  (put_name name (put_self fresh_object st)) eq_refl) as Hsame.
    destruct (_validate_parameters parameters (put_name name _))
      as [st1 res] eqn:Hrun.
    apply _validate_parameters_inv in Hrun as [-> _].
    rewrite Hpar in Hsame. simpl in Hsame. by subst res.
  - destruct Hinv as [-> Hval]. split; [done|]. split; [done|].
    unfold out.
    destruct (_validate_independent_variables independent_variables)
      as [err|c] eqn:Hc.
    { unfold new, __init__. unfold_M.
      rewrite (_validate_parameters_valid _ r) by done. by rewrite Hc. }
    destruct (_validate_expression expression) as [err|eo] eqn:He.
    { unfold new, __init__. unfold_M.
      rewrite (_validate_parameters_valid _ r) by done. by rewrite Hc, He. }
    rewrite (new_run _ _ _ _ r c eo) by done. simpl.
    destruct (_validate_expression_parameters _) as [st' res] eqn:Hrun.
    apply check_inv in Hrun as (Hself & Hdicts & _). simpl.
    split; [done|]. intros p' Hp'. destruct res; simplify_eq. done.
Qed.


(** The object keeps the dict that the constructor is given, not a copy of
    it: what the [parameters] setter of the object merges later is merged
    into the dict of the caller. *)
Theorem constructor_keeps_the_dict st name expression r independent_variables :
  let out := new name expression (PyDict r) independent_variables st in
  ∀ p, out.2 = inr p →
    _parameters p = r ∧ _name p = name ∧ self out.1 = p ∧
    dicts out.1 = dicts st ∧
    ∀ r2, valid_parameters (deref st r2) →
      deref (set_parameters (PyDict r2) out.1).1 r = deref st r2 ∪ deref st r.
Proof.
  intros out p Hp.
  pose proof (new_outcome st name expression (PyDict r) independent_variables)
    as Hout. cbv zeta in Hout. fold out in Hout.
  destruct (_validate_parameters (PyDict r) st).2 as [err|r'].
  { destruct Hout as [Hout _]. congruence. }
  destruct Hout as ([= <-] & _ & Hout).
  destruct (_validate_independent_variables independent_variables)
    as [err|c].
  { destruct Hout as [Hout _]. congruence. }
  destruct (_validate_expression expression) as [err|eo].
  { destruct Hout as [Hout _]. congruence. }
  destruct Hout as [Hdicts Hout]. destruct (Hout p Hp) as [-> Hself].
  repeat split; try done.
  intros r2 Hval2.
  assert (∀ r', deref out.1 r' = deref st r') as Hderef.
  { intros r'. unfold deref. by rewrite Hdicts. }
  destruct (set_parameters_frame out.1 r2) as [_ Hd]; [by rewrite Hderef|].
  unfold deref at 1. rewrite Hd, Hself. simpl. rewrite lookup_insert_eq.
  simpl. unfold parameters_of. rewrite Hself. simpl. by rewrite !Hderef.
Qed.

End Properties.

(** * Worked examples *)

#[local] Existing Instances Example.engine Example.units.

Ltac by_computation := refine (bool_decide_unpack _ _); vm_compute; exact I.




(** [set_expression] on the default object with [{'c': 2}]: alone, it is
    refused; with the expression [a*x + b + c], it is merged. *)
Lemma overlap_requirement_witness :
  let st := Example.state1 in
  valid_parameters (deref st 2%positive) ∧
  dom (parameters_of st) ∩ dom (deref st 2%positive) = ∅ ∧
  set_expression ENone (Some (PyDict 2%positive)) None st
  = (st, inl (ValueError (NoVariablesFound {[ PStr "a"; PStr "b" ]}))) ∧
  dom (parameters_of
         (set_expression (EStr "a*x+b+c") (Some (PyDict 2%positive)) None st).1)
  = {[ PStr "a"; PStr "b"; PStr "c" ]}.
Proof.
  intros st.
  assert (valid_parameters (deref st 2%positive)) as Hval by by_computation.
  assert (dom (parameters_of st) ∩ dom (deref st 2%positive) = ∅) as Hdisj
    by by_computation.
  split; [done|]. split; [done|]. split.
  - destruct (overlap_requirement st ENone 2%positive None Hval Hdisj)
      as (_ & Hnone & _).
    rewrite (Hnone eq_refl). vm_compute. reflexivity.
  - destruct (overlap_requirement st (EStr "a*x+b+c") 2%positive None
                Hval Hdisj) as (_ & _ & Hmerged).
    destruct (Hmerged (Some Example.abxc)) as [_ ->]; [done|reflexivity|].
    vm_compute. reflexivity.
Defined.



(** The [parameters] setter of the default object, given [{'c': 2}]. *)
Lemma parameters_setter_merges_witness :
  let st := Example.state1 in
  valid_parameters (deref st 2%positive) ∧
  parameters_of (set_parameters (PyDict 2%positive) st).1
  = {[ PStr "a" := Example.dimensionless 1;
       PStr "b" := Example.dimensionless 1;
       PStr "c" := Example.dimensionless 2 ]}.
Proof.
  intros st.
  assert (valid_parameters (deref st 2%positive)) as Hval by by_computation.
  split; [done|].
  destruct (parameters_setter_merges st 2%positive Hval) as (_ & -> & _).
  vm_compute. reflexivity.
Defined.


(** The [expression] setter of the default object, given [a*x + b + c]. *)
Lemma mutation_not_transactional_witness :
  let st := Example.state1 in
  let out := set_expression_property (EStr "a*x+b+c") st in
  str_keys (parameters_of st) ∧
  out.2 = inl (ValueError (MissingSymbols {[ Sym "c" ]})) ∧
  _expression (self out.1) = Some Example.abxc ∧
  _expression (self st) = Some Example.abx.
Proof.
  intros st out.
  assert (str_keys (parameters_of st)) as Hstr by by_computation.
  assert ((_validate_expression_parameters
             (put_expression (Some Example.abxc) st)).2
          = inl (ValueError (MissingSymbols {[ Sym "c" ]}))) as Hraise
    by (vm_compute; reflexivity).
  destruct (mutation_not_transactional st (EStr "a*x+b+c") Example.abxc
              (MissingSymbols {[ Sym "c" ]}) eq_refl Hstr Hraise)
    as (Hout & Hstored & _).
  repeat split; done.
Defined.




(** ** Worked examples of the further properties *)

(** The dict [{3: 1}] is refused for its value. *)
Lemma _validate_parameters_outcome_witness :
  ¬ valid_parameters (deref Example.state2 4%positive) ∧
  (_validate_parameters (PyDict 4%positive) Example.state2).2
  = inl (ValueError (LacksUnyt (Example.Bare 1))) ∧
  ∃ res k v,
    _validate_parameters (PyDict 4%positive) Example.state2
    = (Example.state2, res) ∧
    deref Example.state2 4%positive !! k = Some v ∧
    ((is_unyt_array v = false ∧ res = inl (ValueError (LacksUnyt v))) ∨
     (is_unyt_array v = true ∧ is_str k = false ∧
      res = inl (ValueError (KeyNotStr k)))).
Proof.
  assert (¬ valid_parameters (deref Example.state2 4%positive)) as Hnot
    by by_computation.
  split; [done|]. split; [reflexivity|].
  destruct (_validate_parameters_outcome (PyDict 4%positive) Example.state2)
    as (res & Hrun & _ & Hinvalid).
  destruct (Hinvalid Hnot) as (k & v & Hkv & Hres).
  exists res, k, v. done.
Defined.







(** [{'c': 2}] given twice to the [parameters] setter of the default
    object. *)
Lemma parameters_setter_idempotent_witness :
  let st1 := (set_parameters (PyDict 2%positive) Example.state1).1 in
  valid_parameters (deref Example.state1 2%positive) ∧
  parameters_of (set_parameters (PyDict 2%positive) st1).1 = parameters_of st1.
Proof.
  intros st1.
  assert (valid_parameters (deref Example.state1 2%positive)) as Hval
    by by_computation.
  split; [done|].
  destruct (parameters_setter_idempotent Example.state1 2%positive Hval)
    as [Htwice _].
  exact Htwice.
Defined.

(** The [parameters] setter of the default object, given [{3: 1}]. *)
Lemma stored_parameters_stay_valid_witness :
  let out := set_parameters (PyDict 4%positive) Example.state2 in
  valid_parameters (parameters_of Example.state2) ∧
  out.2 = inl (ValueError (LacksUnyt (Example.Bare 1))) ∧
  valid_parameters (parameters_of out.1).
Proof.
  intros out.
  assert (valid_parameters (parameters_of Example.state2)) as Hval
    by by_computation.
  split; [done|]. split; [by vm_compute|].
  destruct (stored_parameters_stay_valid Example.state2 Hval) as (Hset & _).
  by destruct (Hset (PyDict 4%positive)) as [_ Hvalid].
Defined.

(** [set_expression(parameters={'a': 4})] on the default object. *)
Lemma overlapping_parameters_merged_witness :
  let out :=
    set_expression ENone (Some (PyDict 3%positive)) None Example.state1 in
  valid_parameters (deref Example.state1 3%positive) ∧
  dom (parameters_of Example.state1) ∩ dom (deref Example.state1 3%positive)
  ≠ ∅ ∧
  parameters_of out.1
  = {[ PStr "a" := Example.dimensionless 4;
       PStr "b" := Example.dimensionless 1 ]}.
Proof.
  intros out.
  assert (valid_parameters (deref Example.state1 3%positive)) as Hval
    by by_computation.
  assert (dom (parameters_of Example.state1)
            ∩ dom (deref Example.state1 3%positive) ≠ ∅) as Hover
    by by_computation.
  split; [done|]. split; [done|].
  destruct (overlapping_parameters_merged Example.state1 ENone 3%positive
              None Hval Hover (or_introl eq_refl)) as [_ Hmerged].
  fold out in Hmerged. rewrite Hmerged. vm_compute. reflexivity.
Defined.


(** [set_expression] on the default object with [a*x + b + c], [{'c': 2}]
    and independent variables that are refused. *)
Lemma set_expression_keeps_what_it_applied_witness :
  let out :=
    set_expression (EStr "a*x+b+c") (Some (PyDict 2%positive)) (Some IOther)
      Example.state1 in
  valid_parameters (deref Example.state1 2%positive) ∧
  out.2 = inl (ValueError EnterIndependentVariables) ∧
  _expression (self out.1) = Some Example.abxc ∧
  dom (parameters_of out.1) = {[ PStr "a"; PStr "b"; PStr "c" ]}.
Proof.
  intros out.
  assert (valid_parameters (deref Example.state1 2%positive)) as Hval
    by by_computation.
  destruct (set_expression_keeps_what_it_applied Example.state1
              (EStr "a*x+b+c") Example.abxc eq_refl) as [Hiv _].
  pose proof (Hiv 2%positive IOther (ValueError EnterIndependentVariables)
                Hval eq_refl) as Hout.
  fold out in Hout. rewrite Hout.
  split; [done|]. split; [done|]. split; [done|]. vm_compute. reflexivity.
Defined.



(** The class called with the dict at address 1, and [{'c': 2}] given to
    the [parameters] setter of the object: the dict at address 1 has the
    key ['c']. *)
Lemma constructor_keeps_the_dict_witness :
  let out :=
    new "p" (EStr "a*x+b") (PyDict 1%positive) (IStr "x") Example.state0 in
  valid_parameters (deref Example.state0 2%positive) ∧
  (∃ p, out.2 = inr p ∧ _parameters p = 1%positive) ∧
  dom (deref (set_parameters (PyDict 2%positive) out.1).1 1%positive)
  = {[ PStr "a"; PStr "b"; PStr "c" ]}.
Proof.
  intros out.
  assert (valid_parameters (deref Example.state0 2%positive)) as Hval
    by by_computation.
  assert (out.2 = inr (mkPotential "p" 1%positive (PySet {[ Sym "x" ]})
                         (Some Example.abx))) as Hout
    by (vm_compute; reflexivity).
  destruct (constructor_keeps_the_dict Example.state0 "p" (EStr "a*x+b")
              1%positive (IStr "x") _ Hout) as (Hp & _ & _ & _ & Halias).
  split; [done|]. split; [by eauto|].
  fold out in Halias. rewrite (Halias 2%positive Hval).
  vm_compute. reflexivity.
Defined.
